(** * A model of the image-compression pipeline of [src/src/App.tsx]

    The component [App] reads dropped files, decodes each as an image,
    renders it on a canvas (resized to at most 1600 px wide), re-encodes the
    canvas as WebP with a descending quality search, keeps the smaller of
    the original and the re-encoding, and shows per-file sizes and a batch
    savings percentage.

    JavaScript numbers that go through floating-point arithmetic in the
    source (the WebP quality, the resize ratio, the savings percentage) are
    modelled with Rocq's primitive IEEE-754 binary64 floats, so every
    rounding step is the one the browser performs.  Byte counts
    ([File.size], [Blob.size]) are integers and are modelled in [Z]. *)

From Stdlib Require Import ZArith Floats String Ascii Lia DecimalString.
From stdpp Require Import base list gmap strings.
Set Warnings "-inexact-float".

Open Scope Z_scope.

(** ** Promises

    A promise that is never settled stays [Pending]; the program only ever
    resolves (it never rejects), so a settled promise carries a value. *)
Inductive promise (A : Type) : Type :=
| Pending : promise A
| Resolved : A -> promise A.
Arguments Pending {A}.
Arguments Resolved {A} _.

(** ** Files, data URLs and blobs *)

(** A dropped [File]: its name, MIME type and contents. *)
Record File := mkFile {
  file_name : string;
  file_type : string;
  file_bytes : list Byte.byte
}.

(** [File.size] is the byte length of the file. *)
Definition file_size (f : File) : Z := Z.of_nat (length (file_bytes f)).

(** A [data:] URL: a MIME type and the bytes it encodes (the base64 text of
    the URL is a bijective rendering of these bytes and is not modelled). *)
Record DataURL := mkDataURL {
  url_mime : string;
  url_data : list Byte.byte
}.

(** [FileReader.readAsDataURL(file)]: the data URL of the file's bytes. *)
Definition readAsDataURL (f : File) : DataURL :=
  mkDataURL (file_type f) (file_bytes f).

(** [await (await fetch(url)).blob()] on a data URL: the decoded bytes. *)
Definition fetch_blob (u : DataURL) : list Byte.byte := url_data u.

(** [Blob.size]. *)
Definition blob_size (b : list Byte.byte) : Z := Z.of_nat (length b).

(** ** Numbers assigned to [canvas.width] / [canvas.height]

    Both attributes are WebIDL [unsigned long]: the assigned number is
    converted with ToUint32, i.e. NaN and infinities become 0, a finite value
    is truncated toward zero and reduced modulo 2^32.  A finite double is
    [(-1)^s * m * 2^e]; [Z.shiftl m e] with a negative [e] is the floor of
    [m * 2^e]. *)
Definition truncate (x : float) : Z :=
  match Prim2SF x with
  | S754_finite s m e =>
      let a := Z.shiftl (Zpos m) e in if s then - a else a
  | _ => 0
  end.

Definition ToUint32 (x : float) : Z := truncate x mod 2 ^ 32.

(** ** The decoded image and the canvas *)

(** [img.width] and [img.height] after [img.onload], as JavaScript numbers. *)
Record Image := mkImage {
  img_width : float;
  img_height : float
}.

(** Lines 24-32: the dimensions the canvas is given, before the attribute
    conversion.  [width > 1600] is [1600 < width]. *)
Definition resize (img : Image) : float * float :=
  let width := img_width img in
  let height := img_height img in
  if (1600 <? width)%float then
    let ratio := (1600 / width)%float in
    (1600%float, (height * ratio)%float)
  else (width, height).

(** The canvas after lines 34-37: its integer dimensions and the image drawn
    onto it at that size. *)
Record Canvas := mkCanvas {
  canvas_width : Z;
  canvas_height : Z;
  canvas_image : Image
}.

Definition render (img : Image) : Canvas :=
  let '(width, height) := resize img in
  mkCanvas (ToUint32 width) (ToUint32 height) img.

(** ** The result record [ProcessedImage] *)
Record ProcessedImage := mkProcessed {
  name : string;
  url : DataURL;
  size : Z;
  originalSize : Z
}.

(** ** The file-name rewrite [name.replace(/\.[^/.]+$/, '')]

    The regular expression matches a dot followed by one or more characters
    that are neither [.] nor [/], up to the end of the string.  The first
    (leftmost) match is replaced by the empty string. *)
Fixpoint ext_tail (s : string) : bool :=
  match s with
  | EmptyString => true
  | String c rest =>
      negb (Ascii.eqb c "."%char) && negb (Ascii.eqb c "/"%char) && ext_tail rest
  end.

Definition is_extension (s : string) : bool :=
  match s with
  | EmptyString => false
  | String _ _ => ext_tail s
  end.

Fixpoint strip_ext (s : string) : string :=
  match s with
  | EmptyString => EmptyString
  | String c rest =>
      if Ascii.eqb c "."%char && is_extension rest then EmptyString
      else String c (strip_ext rest)
  end.

Definition optimized_name (n : string) : string :=
  (strip_ext n ++ "-optimized.webp")%string.

(** ** The per-file pipeline [processImage] (lines 17-74) *)
Section Pipeline.

(** The browser's image decoder: [img.src = dataURL] fires [onload] with the
    decoded image, or [onerror] ([None]) when the bytes are not an image. *)
Variable decode : DataURL -> option Image.

(** [canvas.toDataURL('image/webp', quality)]. *)
Variable toDataURL : Canvas -> float -> DataURL.

(** The loop state: [quality], [webpUrl], [blob], and the list of qualities
    passed to [toDataURL] so far (the encode log). *)
Record SearchState := mkSearch {
  quality : float;
  webpUrl : DataURL;
  blob : list Byte.byte;
  encodes : list float
}.

(** The loop guard of line 46. *)
Definition search_guard (fileSize : Z) (st : SearchState) : bool :=
  (blob_size (blob st) >? fileSize) && (0.1 <? quality st)%float.

(** One iteration of the loop body (lines 47-50). *)
Definition search_step (canvas : Canvas) (st : SearchState) : SearchState :=
  let q := (quality st - 0.1)%float in
  let u := toDataURL canvas q in
  mkSearch q u (fetch_blob u) (encodes st ++ [q]).

(** The [while] loop, run with a fuel bound; [quality_search_facts] shows that
    the guard is false long before the bound is reached. *)
Fixpoint search_loop (fuel : nat) (canvas : Canvas) (fileSize : Z)
    (st : SearchState) : SearchState :=
  match fuel with
  | O => st
  | S fuel' =>
      if search_guard fileSize st
      then search_loop fuel' canvas fileSize (search_step canvas st)
      else st
  end.

Definition search_fuel : nat := 64.

(** Lines 40-51: the first encode at 0.8, then the loop. *)
Definition quality_search (canvas : Canvas) (fileSize : Z) : SearchState :=
  let u := toDataURL canvas 0.8%float in
  search_loop search_fuel canvas fileSize (mkSearch 0.8%float u (fetch_blob u) [0.8%float]).

(** Lines 53-68: keep the original when the re-encoding is not smaller. *)
Definition choose_result (file : File) (dataUrl : DataURL) (st : SearchState)
    : ProcessedImage :=
  if blob_size (blob st) >=? file_size file then
    mkProcessed (file_name file) dataUrl (file_size file) (file_size file)
  else
    mkProcessed (optimized_name (file_name file)) (webpUrl st)
      (blob_size (blob st)) (file_size file).

(** [processImage(file)]: the promise is resolved only from [img.onload];
    there is no [onerror] handler, so an undecodable file leaves it
    pending. *)
Definition processImage (file : File) : promise ProcessedImage :=
  let dataUrl := readAsDataURL file in
  match decode dataUrl with
  | None => Pending
  | Some img =>
      let canvas := render img in
      Resolved (choose_result file dataUrl (quality_search canvas (file_size file)))
  end.

(** ** The batch: [Promise.all] and [onDrop] (lines 76-83)

    [Promise.all] fills slot [i] of its value list when promise [i] settles,
    in whatever order the promises settle, and resolves once every slot is
    filled.  A completion order is a list of indices; an index whose promise
    is pending has no completion event, so it fills nothing. *)
Fixpoint settle {A : Type} (order : list nat) (ps : list (promise A))
    (slots : list (option A)) : list (option A) :=
  match order with
  | [] => slots
  | i :: order' =>
      let slots' :=
        match ps !! i with
        | Some (Resolved v) => <[i := Some v]> slots
        | _ => slots
        end in
      settle order' ps slots'
  end.

Fixpoint all_filled {A : Type} (slots : list (option A)) : option (list A) :=
  match slots with
  | [] => Some []
  | None :: _ => None
  | Some v :: rest =>
      match all_filled rest with
      | Some vs => Some (v :: vs)
      | None => None
      end
  end.

Definition promise_all {A : Type} (order : list nat) (ps : list (promise A))
    : promise (list A) :=
  match all_filled (settle order ps (replicate (length ps) None)) with
  | Some vs => Resolved vs
  | None => Pending
  end.

(** The component state touched by [onDrop]. *)
Record UIState := mkUI {
  processedImages : list ProcessedImage;
  isProcessing : bool
}.

(** [onDrop(acceptedFiles)]: set the processing flag, await
    [Promise.all(acceptedFiles.map(processImage))], then store the results
    and clear the flag.  While the awaited promise is pending the
    continuation never runs. *)
Definition onDrop (order : list nat) (acceptedFiles : list File) (s : UIState)
    : UIState :=
  match promise_all order (map processImage acceptedFiles) with
  | Resolved processed => mkUI processed false
  | Pending => mkUI (processedImages s) true
  end.

End Pipeline.

(** ** Rendering integers and [Number.prototype.toFixed] *)

(** Decimal digits of a non-negative integer. *)
Definition digits (n : Z) : string :=
  NilEmpty.string_of_uint (N.to_uint (Z.to_N n)).

Fixpoint zeros (k : nat) : string :=
  match k with
  | O => EmptyString
  | S k' => String "0"%char (zeros k')
  end.

(** Steps 10.a-d of [toFixed]: the digits of [n] with a decimal point
    before the last [f] of them, padded with leading zeros. *)
Definition fixed_digits (f : nat) (n : Z) : string :=
  let m := if n =? 0 then "0"%string else digits n in
  match f with
  | O => m
  | S _ =>
      let m := if (String.length m <=? f)%nat
               then (zeros (f + 1 - String.length m) ++ m)%string else m in
      let k := String.length m in
      (substring 0 (k - f) m ++ "." ++ substring (k - f) f m)%string
  end.

(** The integer [n] of [toFixed(f)] for a finite double [x >= 0]: the [n]
    with [n / 10^f - x] closest to zero, the larger one on a tie, i.e.
    [floor (10^f * x + 1/2)], computed exactly from [x = m * 2^e]. *)
Definition round_scaled (f : nat) (x : float) : Z :=
  match Prim2SF x with
  | S754_finite _ m e =>
      if 0 <=? e then 10 ^ Z.of_nat f * Zpos m * 2 ^ e
      else (2 * 10 ^ Z.of_nat f * Zpos m + 2 ^ (- e)) / 2 ^ (1 - e)
  | _ => 0
  end.

(** [x.toFixed(f)].  For [|x| >= 10^21] the specification falls back to
    [Number::toString], which is not modelled: [None]. *)
Definition toFixed (f : nat) (x : float) : option string :=
  if PrimFloat.is_nan x then Some "NaN"%string
  else if (1e21 <=? PrimFloat.abs x)%float then None
  else
    let s := if (x <? 0)%float then "-"%string else EmptyString in
    Some (s ++ fixed_digits f (round_scaled f (PrimFloat.abs x)))%string.

(** ** [formatSize] (lines 113-119) *)

Definition sizes : list string := ["Bytes"; "KB"; "MB"]%string.

(** [String(parseFloat(d))] for the short decimal [d = toFixed(2)] of a
    value below 2^20: the digits of [n / 100] without trailing fractional
    zeros (a decimal of at most 15 significant digits is the shortest text
    that reads back to its double). *)
Definition number_text (n : Z) : string :=
  let ip := n / 100 in
  let fp := n mod 100 in
  if fp =? 0 then digits ip
  else if fp mod 10 =? 0 then (digits ip ++ "." ++ digits (fp / 10))%string
  else (digits ip ++ "." ++ fixed_digits 0 (fp / 10) ++ digits (fp mod 10))%string.

(** [sizes[i]] concatenated to a string: an index past the end reads
    [undefined]. *)
Definition unit_label (i : Z) : string :=
  match sizes !! Z.to_nat i with
  | Some u => u
  | None => "undefined"%string
  end.

(** [Math.floor(Math.log(bytes) / Math.log(1024))] for [bytes >= 1], taken
    at the real value of the quotient: the [i] with
    [1024^i <= bytes < 1024^(i+1)], which is [floor(log2 bytes / 10)].  Below
    2^30 the real quotient is either an integer (at an exact power of 1024,
    where both logarithms are multiples of [ln 2] computed as such) or more
    than 1e-10 away from one, far beyond the rounding of the two
    logarithms and the division. *)
Definition log1024_index (bytes : Z) : Z := Z.log2 bytes / 10.

(** The whole function.  [bytes / Math.pow(1024, i)] divides by a power of
    two and is exact, so [toFixed(2)] yields [floor(100 * bytes / 1024^i +
    1/2)].  A negative [bytes] (never a file size) makes [Math.log] NaN. *)
Definition formatSize (bytes : Z) : string :=
  if bytes =? 0 then "0 Bytes"%string
  else if bytes <? 0 then "NaN undefined"%string
  else
    let i := log1024_index bytes in
    let d := 1024 ^ i in
    let n := (200 * bytes + d) / (2 * d) in
    (number_text n ++ " " ++ unit_label i)%string.

(** ** [calculateTotalSavings] (lines 121-126) *)

(** A byte count as a JavaScript number (exact below 2^53). *)
Definition js_number (z : Z) : float := PrimFloat.of_uint63 (Uint63.of_Z z).

Definition total_original (rs : list ProcessedImage) : float :=
  fold_left (fun acc img => (acc + js_number (originalSize img))%float) rs 0%float.

Definition total_compressed (rs : list ProcessedImage) : float :=
  fold_left (fun acc img => (acc + js_number (size img))%float) rs 0%float.

Definition savings_value (rs : list ProcessedImage) : float :=
  let totalOriginal := total_original rs in
  let totalCompressed := total_compressed rs in
  ((totalOriginal - totalCompressed) / totalOriginal * 100)%float.

Definition calculateTotalSavings (rs : list ProcessedImage) : option string :=
  toFixed 1 (savings_value rs).

(** The qualities [0.8, 0.8 - 0.1, ...] as doubles, down to the first one
    that is not above 0.1. *)
Definition quality_steps : list float :=
  [0.8; 0.7000000000000001; 0.6000000000000001; 0.5000000000000001;
   0.40000000000000013; 0.30000000000000016; 0.20000000000000015;
   0.10000000000000014; 1.3877787807814457e-16]%float.

(** The loop keeps [webpUrl] the encoding at [quality], [blob] its bytes,
    the last logged quality equal to [quality], and every earlier logged
    quality one where the guard held. *)
Definition search_invariant (toDataURL : Canvas -> float -> DataURL)
    (canvas : Canvas) (fileSize : Z) (st : SearchState) : Prop :=
  webpUrl st = toDataURL canvas (quality st) /\
  blob st = fetch_blob (webpUrl st) /\
  last (encodes st) = Some (quality st) /\
  (forall (k : nat) (q : float), encodes st !! k = Some q ->
     (S k < length (encodes st))%nat ->
     (0.1 <? q)%float = true /\
     blob_size (fetch_blob (toDataURL canvas q)) > fileSize).

(** ** [downloadAll] (lines 92-111): the zip archive

    An entry of a JSZip archive is a file with its bytes or a folder. *)
Inductive ZipEntry :=
| ZipFile (data : list Byte.byte)
| ZipFolder.

Section Archive.

(** With its default [createFolders], [zip.file(name, ...)] first adds a
    folder entry for each parent folder of [name] (the library's path
    splitting is left abstract here). *)
Variable parent_folders : string -> list string.

(** JSZip's [folderAdd]: a folder entry is added only where no entry of
    that name exists. *)
Definition folder_add (z : gmap string ZipEntry) (f : string) : gmap string ZipEntry :=
  match z !! f with
  | Some _ => z
  | None => <[f := ZipFolder]> z
  end.

(** [zip.file(name, data)]: parent folders first, then
    [this.files[name] = object], replacing any entry of that name. *)
Definition zip_file (z : gmap string ZipEntry) (fname : string)
    (data : list Byte.byte) : gmap string ZipEntry :=
  <[fname := ZipFile data]> (fold_left folder_add (parent_folders fname) z).

(** [image.url.split(',')[1]] is the base64 text of the data URL; with
    [{ base64: true }] JSZip stores the bytes it encodes. *)
Definition url_payload (u : DataURL) : list Byte.byte := url_data u.

(** The archive [downloadAll] builds from [processedImages] with
    [processedImages.forEach(image => zip.file(...))] on [new JSZip()]. *)
Definition downloadAll_archive (images : list ProcessedImage) : gmap string ZipEntry :=
  fold_left (fun z image => zip_file z (name image) (url_payload (url image)))
    images ∅.

End Archive.

(** ** The rendered page (lines 128-212) *)

(** One list item: the name, the [img src] / download [href] URL, and the
    two size texts of [Original: ... → Compressed: ...]. *)
Record ResultRow := mkRow {
  row_name : string;
  row_url : DataURL;
  row_original : string;
  row_compressed : string
}.

Definition row_of (image : ProcessedImage) : ResultRow :=
  mkRow (name image) (url image) (formatSize (originalSize image))
    (formatSize (size image)).

(** The results panel: the count in [Processed Images (n)], the
    [Total space saved] figure and the rows. *)
Record ResultsPanel := mkPanel {
  panel_count : Z;
  panel_savings : option string;
  panel_rows : list ResultRow
}.

(** What the page shows: the spinner when [isProcessing], and the results
    panel when [processedImages.length > 0 && !isProcessing]. *)
Record View := mkView {
  spinner_shown : bool;
  results_panel : option ResultsPanel
}.

Definition view (s : UIState) : View :=
  mkView (isProcessing s)
    (if (0 <? length (processedImages s))%nat && negb (isProcessing s)
     then Some (mkPanel (Z.of_nat (length (processedImages s)))
                  (calculateTotalSavings (processedImages s))
                  (map row_of (processedImages s)))
     else None).

(** ** The spec's formulas, for comparison with the code *)

(** Following the spec's words: [round(originalHeight * 1600 / originalWidth)]
    on the exact quotient, halves rounded up as [Math.round] does. *)
Definition spec_rounded_height (width height : Z) : Z :=
  (2 * height * 1600 + width) / (2 * width).

(** Following the spec's words: [(sum original - sum final) / sum original *
    100] on exact integers, rounded to one decimal place (halves up). *)
Definition spec_savings (originals finals : list Z) : string :=
  let o := fold_right Z.add 0 originals in
  let f := fold_right Z.add 0 finals in
  fixed_digits 1 ((2000 * (o - f) + o) / (2 * o)).

(** ** Concrete environments for the examples *)

(** An encoder whose output is always 100 bytes. *)
Definition oversized_encoder (c : Canvas) (q : float) : DataURL :=
  mkDataURL "image/webp" (repeat Byte.x00 100).

(** An encoder whose output shrinks with the quality: 100 bytes at 0.8, then
    fewer as the quality drops. *)
Definition shrinking_encoder (c : Canvas) (q : float) : DataURL :=
  mkDataURL "image/webp"
    (repeat Byte.x00 (Z.to_nat (truncate (q * 125)%float))).

(** A decoder that rejects empty input and reads any other bytes as a
    2000 x 1000 image. *)
Definition sample_decoder (u : DataURL) : option Image :=
  match url_data u with
  | [] => None
  | _ => Some (mkImage 2000 1000)
  end.

Definition sample_file (n : string) (len : nat) : File :=
  mkFile n "image/png" (repeat Byte.x01 len).

(** A result row with the given original and final sizes. *)
Definition savings_row (orig final : Z) : ProcessedImage :=
  mkProcessed "image.webp" (mkDataURL "image/webp" []) final orig.

Definition three_files : list File :=
  [sample_file "a.png" 10; sample_file "b.png" 0; sample_file "c.png" 20].

(** ** Facts about the quality search *)

Lemma quality_steps_next (k : nat) (q : float) :
  quality_steps !! k = Some q -> (0.1 <? q)%float = true ->
  (k < 8)%nat /\ quality_steps !! S k = Some (q - 0.1)%float.
Proof.
  revert q.
  do 9 (destruct k as [|k]; [cbn; intros q Hq Hg; injection Hq as <-;
         first [split; [lia | reflexivity] | vm_compute in Hg; discriminate] | ]).
  cbn; discriminate.
Qed.

Lemma quality_steps_first : quality_steps !! 0%nat = Some 0.8%float.
Proof. reflexivity. Qed.

Lemma quality_steps_length : length quality_steps = 9%nat.
Proof. reflexivity. Qed.

Section SearchFacts.
Variable toDataURL : Canvas -> float -> DataURL.
Variable canvas : Canvas.
Variable fileSize : Z.

(** Every state the loop reaches is [quality_steps]'s [k]-th quality, with
    the first [k+1] qualities logged, and the loop stops by its guard. *)
Lemma search_loop_steps (fuel k : nat) (st : SearchState) (q : float) :
  quality_steps !! k = Some q -> quality st = q ->
  encodes st = take (S k) quality_steps ->
  (8 <= k + fuel)%nat ->
  exists j, (k <= j)%nat /\
    quality_steps !! j = Some (quality (search_loop toDataURL fuel canvas fileSize st)) /\
    encodes (search_loop toDataURL fuel canvas fileSize st) = take (S j) quality_steps /\
    search_guard fileSize (search_loop toDataURL fuel canvas fileSize st) = false.
Proof.
  revert k st q.
  induction fuel as [|fuel IH]; intros k st q Hk Hq He Hf; simpl.
  - exists k. split; [lia|]. rewrite Hq. split; [exact Hk|]. split; [exact He|].
    unfold search_guard. rewrite Hq.
    destruct (0.1 <? q)%float eqn:Hg; [|now rewrite andb_false_r].
    destruct (quality_steps_next k q Hk Hg). lia.
  - destruct (search_guard fileSize st) eqn:Hg.
    + unfold search_guard in Hg. apply andb_prop in Hg as [_ Hg].
      rewrite Hq in Hg.
      destruct (quality_steps_next k q Hk Hg) as [Hlt Hnext].
      destruct (IH (S k) (search_step toDataURL canvas st) (q - 0.1)%float Hnext)
        as [j (Hj & Hj1 & Hj2 & Hj3)].
      * unfold search_step; cbn [quality]. now rewrite Hq.
      * unfold search_step; cbn [encodes quality]. rewrite He, Hq.
        symmetry. apply take_S_r. exact Hnext.
      * lia.
      * exists j. split; [lia|]. auto.
    + exists k. split; [lia|]. rewrite Hq. auto.
Qed.

Lemma search_loop_invariant (fuel : nat) (st : SearchState) :
  search_invariant toDataURL canvas fileSize st ->
  search_invariant toDataURL canvas fileSize (search_loop toDataURL fuel canvas fileSize st).
Proof.
  revert st. induction fuel as [|fuel IH]; intros st Hinv; simpl; [exact Hinv|].
  destruct (search_guard fileSize st) eqn:Hg; [|exact Hinv].
  apply IH. destruct Hinv as (Hu & Hb & Hl & Hk).
  unfold search_guard in Hg. apply andb_prop in Hg as [Hs Hq].
  apply Z.gtb_lt in Hs.
  unfold search_step; split; [reflexivity|]; split; [reflexivity|]; split.
  - cbn [encodes quality]. rewrite last_snoc. reflexivity.
  - cbn [encodes]. intros k q Hkq Hlen. rewrite length_app in Hlen. simpl in Hlen.
    destruct (decide (S k < length (encodes st))%nat) as [Hin|Hout].
    + rewrite lookup_app_l in Hkq by lia. exact (Hk k q Hkq Hin).
    + assert (k = pred (length (encodes st))) as -> by lia.
      rewrite last_lookup in Hl. rewrite lookup_app_l in Hkq by lia.
      rewrite Hl in Hkq. injection Hkq as <-. rewrite <- Hu, <- Hb.
      split; [exact Hq | lia].
Qed.

End SearchFacts.

Lemma quality_search_facts (toDataURL : Canvas -> float -> DataURL)
    (canvas : Canvas) (fileSize : Z) :
  let st := quality_search toDataURL canvas fileSize in
  search_invariant toDataURL canvas fileSize st /\
  (exists j, quality_steps !! j = Some (quality st) /\
             encodes st = take (S j) quality_steps) /\
  search_guard fileSize st = false.
Proof.
  cbv zeta. unfold quality_search.
  set (st0 := mkSearch 0.8%float (toDataURL canvas 0.8%float)
                (fetch_blob (toDataURL canvas 0.8%float)) [0.8%float]).
  destruct (search_loop_steps toDataURL canvas fileSize search_fuel 0 st0 0.8%float)
    as [j (_ & Hj & He & Hg)]; [reflexivity | reflexivity | reflexivity | cbv; lia |].
  split; [|eauto].
  apply search_loop_invariant.
  split; [reflexivity|]; split; [reflexivity|]; split; [reflexivity|].
  intros k q _ Hk. simpl in Hk. lia.
Qed.

Lemma choose_result_original (file : File) (dataUrl : DataURL) (st : SearchState) :
  blob_size (blob st) >= file_size file ->
  choose_result file dataUrl st =
    mkProcessed (file_name file) dataUrl (file_size file) (file_size file).
Proof.
  intros H. unfold choose_result.
  destruct (blob_size (blob st) >=? file_size file) eqn:E; [reflexivity|].
  rewrite Z.geb_leb, Z.leb_gt in E. lia.
Qed.

Lemma choose_result_reencoded (file : File) (dataUrl : DataURL) (st : SearchState) :
  blob_size (blob st) < file_size file ->
  choose_result file dataUrl st =
    mkProcessed (optimized_name (file_name file)) (webpUrl st)
      (blob_size (blob st)) (file_size file).
Proof.
  intros H. unfold choose_result.
  destruct (blob_size (blob st) >=? file_size file) eqn:E; [|reflexivity].
  rewrite Z.geb_leb, Z.leb_le in E. lia.
Qed.

(** ** Facts about [strip_ext] *)

Lemma strip_ext_cases (s : string) :
  (exists ext, is_extension ext = true /\ s = (strip_ext s ++ String "." ext)%string) \/
  (strip_ext s = s /\
   ~ exists p ext, is_extension ext = true /\ s = (p ++ String "." ext)%string).
Proof.
  induction s as [|c rest IH]; simpl.
  - right. split; [reflexivity|]. intros (p & ext & _ & Hp).
    destruct p; discriminate.
  - destruct (Ascii.eqb c "."%char && is_extension rest) eqn:Hc.
    + left. apply andb_prop in Hc as [Hc Hr]. apply Ascii.eqb_eq in Hc. subst c.
      exists rest. auto.
    + destruct IH as [(ext & Hext & Hrest) | (Hrest & Hno)].
      * left. exists ext. split; [exact Hext|]. rewrite Hrest at 1. reflexivity.
      * right. rewrite Hrest. split; [reflexivity|].
        intros (p & ext & Hext & Hp). destruct p as [|c' p]; cbn [String.append] in Hp.
        -- injection Hp as -> ->. rewrite Ascii.eqb_refl, Hext in Hc. discriminate.
        -- injection Hp as <- Hp. apply Hno. eauto.
Qed.

(** ** Claims about the quality search and the per-file result *)

(** C1 (amended).  The quality search encodes first at 0.8 and re-encodes
    at the previous quality minus 0.1 (in double arithmetic) only while the
    last encoding is larger than the file and the last quality is above
    0.1; it stops at the first encoding no larger than the file, or once
    the quality is not above 0.1.  Its first eight qualities are those of
    [quality_steps], 0.8 down to 0.1 in steps of 0.1.  So it encodes at
    least once, and when the encodings at 0.8 to 0.2 are all larger than the
    file it makes an eighth encode, at quality 0.1 (the double
    0.10000000000000014). *)
Theorem quality_search_encode_bounds (toDataURL : Canvas -> float -> DataURL)
    (canvas : Canvas) (fileSize : Z) :
  let st := quality_search toDataURL canvas fileSize in
  (1 <= length (encodes st))%nat /\
  encodes st !! 0%nat = Some 0.8%float /\
  (forall k : nat, (k < 8)%nat -> (k < length (encodes st))%nat ->
     encodes st !! k = quality_steps !! k) /\
  last (encodes st) = Some (quality st) /\
  blob st = fetch_blob (toDataURL canvas (quality st)) /\
  (forall (k : nat) (q : float), encodes st !! k = Some q ->
     (S k < length (encodes st))%nat ->
     (0.1 <? q)%float = true /\
     blob_size (fetch_blob (toDataURL canvas q)) > fileSize) /\
  (blob_size (blob st) <= fileSize \/ (0.1 <? quality st)%float = false) /\
  ((forall (k : nat) (q : float), (k < 7)%nat -> quality_steps !! k = Some q ->
      blob_size (fetch_blob (toDataURL canvas q)) > fileSize) ->
   encodes st !! 7%nat = Some 0.10000000000000014%float).
Proof.
  cbv zeta.
  destruct (quality_search_facts toDataURL canvas fileSize)
    as ((Hu & Hb & Hl & Hk) & (j & Hj & He) & Hg).
  set (st := quality_search toDataURL canvas fileSize) in *. clearbody st.
  assert (Hj9 : (j < 9)%nat) by (apply lookup_lt_Some in Hj; exact Hj).
  assert (Hlen : length (encodes st) = S j)
    by (rewrite He, length_take, quality_steps_length; lia).
  assert (Hstop : blob_size (blob st) <= fileSize \/ (0.1 <? quality st)%float = false).
  { unfold search_guard in Hg. apply andb_false_iff in Hg as [Hs|Hq].
    - left. rewrite Z.gtb_ltb, Z.ltb_ge in Hs. exact Hs.
    - right. exact Hq. }
  split; [lia|].
  split; [rewrite He; reflexivity|].
  split; [intros k _ Hk'; rewrite He; apply lookup_take_lt; lia|].
  split; [exact Hl|]. split; [rewrite Hb, Hu; reflexivity|].
  split; [exact Hk|].
  split; [exact Hstop|].
  intros Hbig.
  assert (Hj7 : (7 <= j)%nat).
  { destruct (Nat.le_gt_cases 7 j) as [|Hlt]; [assumption|]. exfalso.
    assert (Habove : forall (k : nat) (q : float), (k < 7)%nat ->
              quality_steps !! k = Some q -> (0.1 <? q)%float = true).
    { intros k q Hk7 Hq.
      destruct k as [|[|[|[|[|[|[|k]]]]]]]; try lia;
        vm_compute in Hq; injection Hq as <-; reflexivity. }
    specialize (Habove j (quality st) Hlt Hj).
    destruct Hstop as [Hs|Hq]; [|congruence].
    pose proof (Hbig j (quality st) Hlt Hj) as Hgt.
    rewrite Hb, Hu in Hs. lia. }
  rewrite He, lookup_take_lt by lia. reflexivity.
Qed.

(** C1 counterexample: with encodings of [truncate(q * 125)] bytes and a
    20-byte file, the encodings at 0.8 to 0.2 are all too large, so the
    search encodes eight times and its last quality is 0.1 (the double
    0.10000000000000014), outside {0.8, ..., 0.2}. *)
Lemma quality_search_eight_encodes :
  let st := quality_search shrinking_encoder (mkCanvas 1 1 (mkImage 1 1)) 20 in
  length (encodes st) = 8%nat /\
  quality st = 0.10000000000000014%float /\
  (quality st <? 0.2)%float = true.
Proof. vm_compute. split; [reflexivity|]. split; reflexivity. Qed.

(** C3 (amended).  The canvas is 1600 wide and
    [ToUint32(height * (1600 / width))] high (the double product truncated
    toward zero by the [unsigned long] attribute, not rounded) when the
    decoded width exceeds 1600, and keeps the decoded dimensions otherwise. *)
Theorem render_dimensions (img : Image) :
  (canvas_width (render img), canvas_height (render img)) =
  (if (1600 <? img_width img)%float
   then (1600, ToUint32 (img_height img * (1600 / img_width img))%float)
   else (ToUint32 (img_width img), ToUint32 (img_height img))).
Proof.
  unfold render, resize.
  destruct (1600 <? img_width img)%float; reflexivity.
Qed.

(** C3 counterexample: a 4800 x 3200 image gets a 1066 px high canvas, while
    [round(3200 * 1600 / 4800)] is 1067. *)
Lemma render_height_not_rounded :
  canvas_width (render (mkImage 4800 3200)) = 1600 /\
  canvas_height (render (mkImage 4800 3200)) = 1066 /\
  spec_rounded_height 4800 3200 = 1067.
Proof. vm_compute. split; [reflexivity|]. split; reflexivity. Qed.

(** C4.  When the encoding the search ends with is not smaller than the
    file, [processImage] resolves to the file's own data URL (its bytes
    unchanged), its name, and [size = originalSize = file.size]. *)
Theorem processImage_keeps_original (decode : DataURL -> option Image)
    (toDataURL : Canvas -> float -> DataURL) (file : File) (img : Image) :
  decode (readAsDataURL file) = Some img ->
  blob_size (blob (quality_search toDataURL (render img) (file_size file)))
    >= file_size file ->
  processImage decode toDataURL file =
    Resolved (mkProcessed (file_name file) (readAsDataURL file)
                (file_size file) (file_size file)) /\
  url_data (readAsDataURL file) = file_bytes file.
Proof.
  intros Hd Hs. unfold processImage. rewrite Hd.
  rewrite choose_result_original by exact Hs. split; reflexivity.
Qed.

Lemma processImage_keeps_original_witness :
  processImage sample_decoder oversized_encoder (sample_file "cat.png" 60) =
    Resolved (mkProcessed "cat.png" (readAsDataURL (sample_file "cat.png" 60)) 60 60) /\
  url_data (readAsDataURL (sample_file "cat.png" 60)) = file_bytes (sample_file "cat.png" 60).
Proof.
  apply (processImage_keeps_original sample_decoder oversized_encoder
           (sample_file "cat.png" 60) (mkImage 2000 1000)).
  - reflexivity.
  - vm_compute. discriminate.
Defined.

(** C5.  When some quality the search encoded at gives fewer bytes than the
    file, [processImage] resolves to that encoding, with [size] its byte
    length and below [originalSize], and with the name whose extension (a
    final [.] followed by characters other than [.] and [/]) is cut off and
    [-optimized.webp] appended. *)
Theorem processImage_uses_reencoding (decode : DataURL -> option Image)
    (toDataURL : Canvas -> float -> DataURL) (file : File) (img : Image)
    (q : float) :
  decode (readAsDataURL file) = Some img ->
  q ∈ encodes (quality_search toDataURL (render img) (file_size file)) ->
  blob_size (fetch_blob (toDataURL (render img) q)) < file_size file ->
  exists r, processImage decode toDataURL file = Resolved r /\
    url r = toDataURL (render img) q /\
    size r = blob_size (url_data (url r)) /\
    size r < originalSize r /\ originalSize r = file_size file /\
    name r = (strip_ext (file_name file) ++ "-optimized.webp")%string /\
    ((exists ext, is_extension ext = true /\
       file_name file = (strip_ext (file_name file) ++ String "." ext)%string) \/
     (strip_ext (file_name file) = file_name file /\
      ~ exists p ext, is_extension ext = true /\
        file_name file = (p ++ String "." ext)%string)).
Proof.
  intros Hd Hq Hs.
  destruct (quality_search_facts toDataURL (render img) (file_size file))
    as ((Hu & Hb & Hl & Hk) & _ & _).
  set (st := quality_search toDataURL (render img) (file_size file)) in *.
  apply list_elem_of_lookup in Hq as [k Hkq].
  assert (Hlast : S k = length (encodes st)).
  { apply lookup_lt_Some in Hkq as Hlt.
    destruct (decide (S k < length (encodes st))%nat) as [Hin|]; [|lia].
    destruct (Hk k q Hkq Hin) as [_ Hbig]. lia. }
  assert (q = quality st) as ->.
  { rewrite last_lookup, <- Hlast in Hl. simpl in Hl. congruence. }
  rewrite <- Hu in Hs |- *.
  assert (Hsmall : blob_size (blob st) < file_size file) by (rewrite Hb; exact Hs).
  eexists. unfold processImage. rewrite Hd. fold st.
  rewrite choose_result_reencoded by exact Hsmall.
  split; [reflexivity|]. simpl. split; [reflexivity|].
  split; [rewrite Hb; reflexivity|]. split; [exact Hsmall|].
  split; [reflexivity|]. split; [reflexivity|].
  apply strip_ext_cases.
Qed.

Lemma processImage_uses_reencoding_witness :
  exists r, processImage sample_decoder shrinking_encoder (sample_file "cat.png" 60) = Resolved r /\
    url r = shrinking_encoder (render (mkImage 2000 1000)) 0.40000000000000013%float /\
    size r = blob_size (url_data (url r)) /\
    size r < originalSize r /\ originalSize r = file_size (sample_file "cat.png" 60) /\
    name r = (strip_ext "cat.png" ++ "-optimized.webp")%string /\
    ((exists ext, is_extension ext = true /\
       "cat.png"%string = (strip_ext "cat.png" ++ String "." ext)%string) \/
     (strip_ext "cat.png" = "cat.png"%string /\
      ~ exists p ext, is_extension ext = true /\
        "cat.png"%string = (p ++ String "." ext)%string)).
Proof.
  apply (processImage_uses_reencoding sample_decoder shrinking_encoder
           (sample_file "cat.png" 60) (mkImage 2000 1000) 0.40000000000000013%float).
  - reflexivity.
  - vm_compute. apply list_elem_of_In. simpl. tauto.
  - vm_compute. reflexivity.
Defined.

(** C6.  Every result carries [size] equal to the byte length of its
    payload (the bytes of its data URL), in both branches. *)
Theorem processImage_size_is_payload_length (decode : DataURL -> option Image)
    (toDataURL : Canvas -> float -> DataURL) (file : File) (r : ProcessedImage) :
  processImage decode toDataURL file = Resolved r ->
  size r = blob_size (url_data (url r)).
Proof.
  unfold processImage. destruct (decode (readAsDataURL file)) as [img|]; [|discriminate].
  intros H. injection H as <-.
  destruct (quality_search_facts toDataURL (render img) (file_size file))
    as ((Hu & Hb & _ & _) & _ & _).
  unfold choose_result.
  destruct (_ >=? _); simpl; [reflexivity|].
  rewrite Hb. reflexivity.
Qed.

Lemma processImage_size_is_payload_length_witness :
  processImage sample_decoder shrinking_encoder (sample_file "cat.png" 60) =
    Resolved (mkProcessed "cat-optimized.webp"
                (shrinking_encoder (render (mkImage 2000 1000)) 0.40000000000000013%float)
                50 60) /\
  50 = blob_size (url_data (shrinking_encoder (render (mkImage 2000 1000)) 0.40000000000000013%float)).
Proof.
  split; [vm_compute; reflexivity|].
  apply (processImage_size_is_payload_length sample_decoder shrinking_encoder
           (sample_file "cat.png" 60)
           (mkProcessed "cat-optimized.webp"
              (shrinking_encoder (render (mkImage 2000 1000)) 0.40000000000000013%float)
              50 60)).
  vm_compute. reflexivity.
Defined.

(** ** Facts about [Promise.all] *)

Lemma length_settle {A : Type} (order : list nat) (ps : list (promise A))
    (slots : list (option A)) :
  length (settle order ps slots) = length slots.
Proof.
  revert slots. induction order as [|i order IH]; intros slots; simpl; [reflexivity|].
  rewrite IH. destruct (ps !! i) as [[|v]|]; rewrite ?length_insert; reflexivity.
Qed.

(** A pending promise never fills its slot. *)
Lemma settle_pending {A : Type} (order : list nat) (ps : list (promise A))
    (slots : list (option A)) (i : nat) :
  ps !! i = Some Pending -> settle order ps slots !! i = slots !! i.
Proof.
  intros Hi. revert slots. induction order as [|j order IH]; intros slots; simpl; [reflexivity|].
  rewrite IH. destruct (ps !! j) as [[|v]|] eqn:Hj; try reflexivity.
  rewrite list_lookup_insert_ne; [reflexivity|]. intros ->. congruence.
Qed.

(** With every promise resolved, a slot is filled exactly when its index
    has completed. *)
Lemma settle_resolved {A : Type} (order : list nat) (vs : list A)
    (slots : list (option A)) (j : nat) (v : A) :
  length slots = length vs -> vs !! j = Some v ->
  settle order (map Resolved vs) slots !! j =
    if decide (j ∈ order) then Some (Some v) else slots !! j.
Proof.
  intros Hlen Hj. revert slots Hlen.
  induction order as [|i order IH]; intros slots Hlen; simpl.
  - destruct (decide (j ∈ [])) as [Hin|]; [inversion Hin|reflexivity].
  - rewrite list_lookup_fmap.
    destruct (vs !! i) as [w|] eqn:Hw; simpl.
    + rewrite IH by (rewrite length_insert; exact Hlen).
      destruct (decide (j ∈ order)) as [Hin|Hnin].
      * rewrite decide_True by (apply list_elem_of_further; exact Hin). reflexivity.
      * destruct (decide (i = j)) as [->|Hne].
        -- rewrite decide_True by apply list_elem_of_here.
           rewrite list_lookup_insert_eq by (apply lookup_lt_Some in Hj; lia).
           congruence.
        -- rewrite list_lookup_insert_ne by exact Hne.
           rewrite decide_False; [reflexivity|].
           rewrite elem_of_cons. intros [->|]; contradiction.
    + rewrite IH by exact Hlen.
      destruct (decide (j ∈ order)) as [Hin|Hnin].
      * rewrite decide_True by (apply list_elem_of_further; exact Hin). reflexivity.
      * rewrite decide_False; [reflexivity|].
        rewrite elem_of_cons. intros [->|]; [congruence|contradiction].
Qed.

Lemma all_filled_some {A : Type} (vs : list A) :
  all_filled (map Some vs) = Some vs.
Proof. induction vs as [|v vs IH]; simpl; [reflexivity|]. rewrite IH. reflexivity. Qed.

Lemma all_filled_hole {A : Type} (slots : list (option A)) (i : nat) :
  slots !! i = Some None -> all_filled slots = None.
Proof.
  revert i. induction slots as [|s slots IH]; intros i Hi; [discriminate|].
  destruct i as [|i]; simpl in Hi.
  - injection Hi as ->. reflexivity.
  - simpl. destruct s as [v|]; [|reflexivity].
    rewrite (IH i Hi). reflexivity.
Qed.

(** [Promise.all] over resolved promises yields their values in list
    order, whatever the order of completion. *)
Lemma promise_all_resolved {A : Type} (order : list nat) (vs : list A) :
  order ≡ₚ seq 0 (length vs) ->
  promise_all order (map Resolved vs) = Resolved vs.
Proof.
  intros Hperm. unfold promise_all.
  assert (Hfill : settle order (map Resolved vs) (replicate (length (map Resolved vs)) None)
                  = map Some vs).
  { apply list_eq_same_length with (length vs).
    - rewrite length_map. reflexivity.
    - rewrite length_settle, length_replicate, length_map. reflexivity.
    - intros j x y Hj Hx Hy.
      destruct (lookup_lt_is_Some_2 vs j Hj) as [v Hv].
      rewrite list_lookup_fmap, Hv in Hy. simpl in Hy. injection Hy as <-.
      rewrite settle_resolved with (v := v) in Hx
        by (rewrite ?length_replicate, ?length_map; auto).
      rewrite decide_True in Hx; [congruence|].
      rewrite Hperm, elem_of_seq. lia. }
  rewrite Hfill, all_filled_some. reflexivity.
Qed.

(** A pending promise keeps [Promise.all] pending, whatever completes. *)
Lemma promise_all_pending {A : Type} (order : list nat) (ps : list (promise A))
    (i : nat) :
  ps !! i = Some Pending -> promise_all order ps = Pending.
Proof.
  intros Hi. unfold promise_all.
  rewrite (all_filled_hole _ i); [reflexivity|].
  rewrite settle_pending by exact Hi.
  apply lookup_replicate_2. apply lookup_lt_Some in Hi. exact Hi.
Qed.

Lemma processImage_all_resolved (decode : DataURL -> option Image)
    (toDataURL : Canvas -> float -> DataURL) (files : list File) :
  Forall (fun f => decode (readAsDataURL f) <> None) files ->
  exists vs, map (processImage decode toDataURL) files = map Resolved vs.
Proof.
  induction 1 as [|f files Hf _ [vs IH]]; [exists []; reflexivity|].
  destruct (decode (readAsDataURL f)) as [img|] eqn:Hd; [|congruence].
  exists (choose_result f (readAsDataURL f)
            (quality_search toDataURL (render img) (file_size f)) :: vs).
  simpl. rewrite IH. unfold processImage. rewrite Hd. reflexivity.
Qed.

(** ** Claims about the batch *)

(** C2 (amended).  [processImage] has no [onerror] handler, so a file that
    does not decode leaves its promise pending; [Promise.all] then never
    resolves, whatever the other files do, and [onDrop] never gets past its
    [await]: the result list keeps its previous contents (none of this
    batch's results appear) and the processing flag stays set. *)
Theorem onDrop_stalls_on_undecodable (decode : DataURL -> option Image)
    (toDataURL : Canvas -> float -> DataURL) (order : list nat)
    (files : list File) (s : UIState) (file : File) :
  file ∈ files -> decode (readAsDataURL file) = None ->
  onDrop decode toDataURL order files s = mkUI (processedImages s) true.
Proof.
  intros Hin Hd. unfold onDrop.
  apply list_elem_of_lookup in Hin as [i Hi].
  rewrite (promise_all_pending order _ i); [reflexivity|].
  rewrite list_lookup_fmap, Hi. simpl. unfold processImage. rewrite Hd. reflexivity.
Qed.

Lemma onDrop_stalls_on_undecodable_witness :
  onDrop sample_decoder oversized_encoder [0; 2; 1]%nat three_files (mkUI [] false)
    = mkUI [] true.
Proof.
  apply (onDrop_stalls_on_undecodable sample_decoder oversized_encoder [0; 2; 1]%nat
           three_files (mkUI [] false) (sample_file "b.png" 0)).
  - apply list_elem_of_In. simpl. tauto.
  - reflexivity.
Defined.

(** C2 counterexample: of three files the second is empty and does not
    decode; the other two resolve, yet after [onDrop] the result list is
    still empty and the batch is still processing. *)
Lemma onDrop_batch_lost :
  (exists r1 r3,
     processImage sample_decoder oversized_encoder (sample_file "a.png" 10) = Resolved r1 /\
     processImage sample_decoder oversized_encoder (sample_file "c.png" 20) = Resolved r3) /\
  processedImages (onDrop sample_decoder oversized_encoder [0; 2; 1]%nat three_files
                     (mkUI [] false)) = [] /\
  isProcessing (onDrop sample_decoder oversized_encoder [0; 2; 1]%nat three_files
                  (mkUI [] false)) = true.
Proof.
  split; [do 2 eexists; split; vm_compute; reflexivity|].
  vm_compute. split; reflexivity.
Qed.

(** C7.  When every file decodes and the pipelines complete in any order
    (a permutation of the indices), [onDrop] stores the results in
    submission order: result [i] is the value of [processImage] on file
    [i]. *)
Theorem onDrop_submission_order (decode : DataURL -> option Image)
    (toDataURL : Canvas -> float -> DataURL) (order : list nat)
    (files : list File) (s : UIState) :
  order ≡ₚ seq 0 (length files) ->
  Forall (fun f => decode (readAsDataURL f) <> None) files ->
  exists rs, onDrop decode toDataURL order files s = mkUI rs false /\
    map Resolved rs = map (processImage decode toDataURL) files.
Proof.
  intros Hperm Hall.
  destruct (processImage_all_resolved decode toDataURL files Hall) as [vs Hvs].
  exists vs. unfold onDrop. rewrite Hvs.
  rewrite promise_all_resolved; [split; reflexivity|].
  rewrite Hperm. f_equal.
  rewrite <- (length_map (processImage decode toDataURL) files), Hvs, length_map.
  reflexivity.
Qed.

Lemma onDrop_submission_order_witness :
  exists rs, onDrop sample_decoder shrinking_encoder [1; 0]%nat
               [sample_file "a.png" 60; sample_file "b.png" 200] (mkUI [] false)
             = mkUI rs false /\
    map Resolved rs = map (processImage sample_decoder shrinking_encoder)
                        [sample_file "a.png" 60; sample_file "b.png" 200].
Proof.
  apply onDrop_submission_order.
  - simpl. apply Permutation_swap.
  - repeat constructor; vm_compute; discriminate.
Defined.

(** ** Facts about the display helpers *)

(** [round_scaled f x] is [10^f * x] rounded to the nearest integer,
    halves up: with [x = m * 2^e], [2n - 1 <= 2 * 10^f * x < 2n + 1], written
    with both sides scaled to integers. *)
Lemma round_scaled_nearest (f : nat) (x : float) (m : positive) (e : Z) :
  Prim2SF x = S754_finite false m e ->
  (2 * round_scaled f x - 1) * 2 ^ Z.max 0 (- e)
    <= 2 * 10 ^ Z.of_nat f * Zpos m * 2 ^ Z.max 0 e
    < (2 * round_scaled f x + 1) * 2 ^ Z.max 0 (- e).
Proof.
  intros Hx. unfold round_scaled. rewrite Hx.
  set (A := 2 * 10 ^ Z.of_nat f * Zpos m).
  destruct (0 <=? e) eqn:He.
  - apply Z.leb_le in He.
    rewrite (Z.max_r 0 e) by exact He. rewrite (Z.max_l 0 (- e)) by lia.
    rewrite Z.pow_0_r.
    unfold A. lia.
  - apply Z.leb_gt in He.
    rewrite (Z.max_l 0 e) by lia. rewrite (Z.max_r 0 (- e)) by lia.
    rewrite Z.pow_0_r.
    assert (Hd : 0 < 2 ^ (- e)) by (apply Z.pow_pos_nonneg; lia).
    assert (H2 : 2 ^ (1 - e) = 2 * 2 ^ (- e))
      by (replace (1 - e) with (Z.succ (- e)) by lia; apply Z.pow_succ_r; lia).
    rewrite H2.
    set (d := 2 ^ (- e)) in *.
    replace (2 * 10 ^ Z.of_nat f * Zpos m) with A by reflexivity.
    pose proof (Z.mul_div_le (A + d) (2 * d) ltac:(lia)) as Hlo.
    pose proof (Z.mul_succ_div_gt (A + d) (2 * d) ltac:(lia)) as Hhi.
    set (n := (A + d) / (2 * d)) in *. rewrite Z.mul_1_r. nia.
Qed.

Lemma log1024_index_bounds (bytes : Z) :
  0 < bytes ->
  0 <= log1024_index bytes /\
  1024 ^ log1024_index bytes <= bytes < 1024 ^ (log1024_index bytes + 1).
Proof.
  intros Hb. unfold log1024_index.
  pose proof (Z.log2_nonneg bytes) as Hl0.
  destruct (Z.log2_spec bytes Hb) as [Hlo Hhi].
  set (l := Z.log2 bytes) in *.
  assert (Hi : 0 <= l / 10) by (apply Z.div_pos; lia).
  pose proof (Z.mul_div_le l 10 ltac:(lia)) as Hd1.
  pose proof (Z.mul_succ_div_gt l 10 ltac:(lia)) as Hd2.
  split; [exact Hi|].
  rewrite <- !(Z.pow_mul_r 2 10) by lia.
  split.
  - eapply Z.le_trans; [|exact Hlo]. apply Z.pow_le_mono_r; lia.
  - eapply Z.lt_le_trans; [exact Hhi|]. apply Z.pow_le_mono_r; lia.
Qed.

Lemma finite_not_nan (x : float) (m : positive) (e : Z) :
  Prim2SF x = S754_finite false m e -> PrimFloat.is_nan x = false.
Proof.
  intros Hx. unfold PrimFloat.is_nan. rewrite FloatAxioms.eqb_spec, Hx.
  unfold SFeqb, SFcompare. rewrite Z.compare_refl, Pos.compare_cont_refl. reflexivity.
Qed.

Lemma finite_not_negative (x : float) (m : positive) (e : Z) :
  Prim2SF x = S754_finite false m e -> (x <? 0)%float = false.
Proof. intros Hx. rewrite FloatAxioms.ltb_spec, Hx. reflexivity. Qed.

Lemma abs_finite_positive (x : float) (m : positive) (e : Z) :
  Prim2SF x = S754_finite false m e -> Prim2SF (PrimFloat.abs x) = S754_finite false m e.
Proof. intros Hx. rewrite FloatAxioms.abs_spec, Hx. reflexivity. Qed.

Lemma finite_signed_not_nan (x : float) (sg : bool) (m : positive) (e : Z) :
  Prim2SF x = S754_finite sg m e -> PrimFloat.is_nan x = false.
Proof.
  intros Hx. unfold PrimFloat.is_nan. rewrite FloatAxioms.eqb_spec, Hx.
  unfold SFeqb, SFcompare.
  destruct sg; rewrite Z.compare_refl, Pos.compare_cont_refl; reflexivity.
Qed.

Lemma finite_signed_negative (x : float) (sg : bool) (m : positive) (e : Z) :
  Prim2SF x = S754_finite sg m e -> (x <? 0)%float = sg.
Proof. intros Hx. rewrite FloatAxioms.ltb_spec, Hx. destruct sg; reflexivity. Qed.

Lemma abs_finite_signed (x : float) (sg : bool) (m : positive) (e : Z) :
  Prim2SF x = S754_finite sg m e -> Prim2SF (PrimFloat.abs x) = S754_finite false m e.
Proof. intros Hx. rewrite FloatAxioms.abs_spec, Hx. reflexivity. Qed.

(** ** Claims about the display helpers *)

(** C8 (amended).  The savings figure is [toFixed(1)] of the double
    [(totalOriginal - totalCompressed) / totalOriginal * 100], for every
    batch whose double is below 10^21 in magnitude: a nonzero finite double
    gives the decimal text (with its sign) of the integer [n] nearest to ten
    times its magnitude (halves up), with one decimal; a savings of exactly
    0 (every file kept) gives "0.0"; a batch with no bytes (0 / 0) gives
    "NaN".  This rounds the double, not the exact quotient, so a quotient
    ending in 5 at the second decimal can go down; for originals
    {1000, 2000} and finals {500, 1800} the figure is "23.3". *)
Theorem calculateTotalSavings_rounds_double (rs : list ProcessedImage) :
  (1e21 <=? PrimFloat.abs (savings_value rs))%float = false ->
  ((Prim2SF (savings_value rs) = S754_nan /\
      calculateTotalSavings rs = Some "NaN"%string) \/
   ((exists sg, Prim2SF (savings_value rs) = S754_zero sg) /\
      calculateTotalSavings rs = Some "0.0"%string) \/
   (exists sg m e n, Prim2SF (savings_value rs) = S754_finite sg m e /\
      calculateTotalSavings rs =
        Some ((if sg then "-"%string else EmptyString) ++ fixed_digits 1 n)%string /\
      (2 * n - 1) * 2 ^ Z.max 0 (- e) <= 20 * Zpos m * 2 ^ Z.max 0 e
        < (2 * n + 1) * 2 ^ Z.max 0 (- e))) /\
  calculateTotalSavings [savings_row 1000 500; savings_row 2000 1800] = Some "23.3"%string.
Proof.
  intros Hbig. split; [|vm_compute; reflexivity].
  unfold calculateTotalSavings.
  destruct (Prim2SF (savings_value rs)) as [sg|sg| |sg m e] eqn:Hx.
  - right; left. split; [exists sg; reflexivity|].
    rewrite <- (FloatAxioms.SF2Prim_Prim2SF (savings_value rs)), Hx.
    destruct sg; vm_compute; reflexivity.
  - exfalso. rewrite <- (FloatAxioms.SF2Prim_Prim2SF (savings_value rs)), Hx in Hbig.
    destruct sg; vm_compute in Hbig; discriminate.
  - left. split; [reflexivity|].
    rewrite <- (FloatAxioms.SF2Prim_Prim2SF (savings_value rs)), Hx.
    vm_compute; reflexivity.
  - right; right. exists sg, m, e, (round_scaled 1 (PrimFloat.abs (savings_value rs))).
    split; [reflexivity|]. split.
    + unfold toFixed.
      rewrite (finite_signed_not_nan _ sg m e Hx), Hbig, (finite_signed_negative _ sg m e Hx).
      reflexivity.
    + pose proof (round_scaled_nearest 1 _ m e (abs_finite_signed _ sg m e Hx)) as H.
      simpl (10 ^ Z.of_nat 1) in H. lia.
Qed.

Lemma calculateTotalSavings_rounds_double_witness :
  ((Prim2SF (savings_value [savings_row 1000 1000]) = S754_nan /\
      calculateTotalSavings [savings_row 1000 1000] = Some "NaN"%string) \/
   ((exists sg, Prim2SF (savings_value [savings_row 1000 1000]) = S754_zero sg) /\
      calculateTotalSavings [savings_row 1000 1000] = Some "0.0"%string) \/
   (exists sg m e n, Prim2SF (savings_value [savings_row 1000 1000]) = S754_finite sg m e /\
      calculateTotalSavings [savings_row 1000 1000] =
        Some ((if sg then "-"%string else EmptyString) ++ fixed_digits 1 n)%string /\
      (2 * n - 1) * 2 ^ Z.max 0 (- e) <= 20 * Zpos m * 2 ^ Z.max 0 e
        < (2 * n + 1) * 2 ^ Z.max 0 (- e))) /\
  calculateTotalSavings [savings_row 1000 500; savings_row 2000 1800] = Some "23.3"%string.
Proof.
  apply (calculateTotalSavings_rounds_double [savings_row 1000 1000]).
  vm_compute. reflexivity.
Defined.

(** C8 counterexample: originals summing to 8000 bytes and finals to 2900
    give the exact figure 63.75, which rounds to "63.8", but the double
    computed is 63.74999999999999 and the page shows "63.7". *)
Lemma calculateTotalSavings_tie_down :
  calculateTotalSavings [savings_row 8000 2900] = Some "63.7"%string /\
  spec_savings [8000] [2900] = "63.8"%string.
Proof. vm_compute. split; reflexivity. Qed.

(** Below 1024^3 bytes, [formatSize] writes 0 as "0 Bytes" and any
    other count as the count divided by [1024^i] (where
    [1024^i <= bytes < 1024^(i+1)]), rounded to two decimals (halves up, as
    [n / 100]) and shown without trailing zeros, followed by the unit
    [Bytes], [KB] or [MB] of index [i]; in particular 0, 1536 and 3145728
    give "0 Bytes", "1.5 KB" and "3 MB". *)
Theorem formatSize_units (bytes : Z) :
  0 <= bytes < 1024 ^ 3 ->
  ((bytes = 0 /\ formatSize bytes = "0 Bytes"%string) \/
   (exists i u n, 0 <= i < 3 /\ sizes !! Z.to_nat i = Some u /\
      1024 ^ i <= bytes < 1024 ^ (i + 1) /\
      (2 * n - 1) * 1024 ^ i <= 200 * bytes < (2 * n + 1) * 1024 ^ i /\
      formatSize bytes = (number_text n ++ " " ++ u)%string)) /\
  formatSize 0 = "0 Bytes"%string /\
  formatSize 1536 = "1.5 KB"%string /\
  formatSize 3145728 = "3 MB"%string.
Proof.
  intros Hb. split; [|vm_compute; split; [|split]; reflexivity].
  destruct (Z.eq_dec bytes 0) as [->|Hnz]; [left; split; reflexivity|].
  right.
  destruct (log1024_index_bounds bytes ltac:(lia)) as (Hi0 & Hlo & Hhi).
  set (i := log1024_index bytes) in *.
  assert (Hi3 : i < 3).
  { destruct (Z.lt_ge_cases i 3) as [|Hge]; [assumption|].
    assert (1024 ^ 3 <= 1024 ^ i) by (apply Z.pow_le_mono_r; lia). lia. }
  assert (Hd : 0 < 1024 ^ i) by (apply Z.pow_pos_nonneg; lia).
  assert (Hu : exists u, sizes !! Z.to_nat i = Some u).
  { assert (i = 0 \/ i = 1 \/ i = 2) as [-> | [-> | ->]] by lia; eexists; reflexivity. }
  destruct Hu as [u Hu].
  set (d := 1024 ^ i) in *.
  exists i, u, ((200 * bytes + d) / (2 * d)).
  split; [lia|]. split; [exact Hu|]. split; [lia|].
  split.
  - pose proof (Z.mul_div_le (200 * bytes + d) (2 * d) ltac:(lia)).
    pose proof (Z.mul_succ_div_gt (200 * bytes + d) (2 * d) ltac:(lia)).
    set (n := (200 * bytes + d) / (2 * d)) in *. nia.
  - unfold formatSize.
    rewrite (proj2 (Z.eqb_neq bytes 0) Hnz).
    rewrite (proj2 (Z.ltb_ge bytes 0)) by lia.
    fold i. fold d. unfold unit_label. rewrite Hu. reflexivity.
Qed.

Lemma formatSize_units_example :
  ((1536 = 0 /\ formatSize 1536 = "0 Bytes"%string) \/
   (exists i u n, 0 <= i < 3 /\ sizes !! Z.to_nat i = Some u /\
      1024 ^ i <= 1536 < 1024 ^ (i + 1) /\
      (2 * n - 1) * 1024 ^ i <= 200 * 1536 < (2 * n + 1) * 1024 ^ i /\
      formatSize 1536 = (number_text n ++ " " ++ u)%string)) /\
  formatSize 0 = "0 Bytes"%string /\
  formatSize 1536 = "1.5 KB"%string /\
  formatSize 3145728 = "3 MB"%string.
Proof. apply (formatSize_units 1536). lia. Defined.

(** C10.  From 1024^3 bytes on, the unit index is 3 or more, past the end
    of [sizes], and the text ends in " undefined". *)
Theorem formatSize_undefined_unit (bytes : Z) :
  1024 ^ 3 <= bytes ->
  exists t, formatSize bytes = (t ++ " undefined")%string.
Proof.
  intros Hb.
  destruct (log1024_index_bounds bytes ltac:(lia)) as (Hi0 & Hlo & Hhi).
  set (i := log1024_index bytes) in *.
  assert (Hi3 : 3 <= i).
  { destruct (Z.lt_ge_cases i 3) as [Hlt|]; [|assumption].
    assert (1024 ^ (i + 1) <= 1024 ^ 3) by (apply Z.pow_le_mono_r; lia). lia. }
  unfold formatSize.
  rewrite (proj2 (Z.eqb_neq bytes 0)) by lia.
  rewrite (proj2 (Z.ltb_ge bytes 0)) by lia.
  fold i. eexists. f_equal. unfold unit_label.
  rewrite lookup_ge_None_2; [reflexivity|].
  simpl. lia.
Qed.

Lemma formatSize_undefined_unit_witness :
  exists t, formatSize 1073741824 = (t ++ " undefined")%string.
Proof. apply (formatSize_undefined_unit 1073741824). vm_compute. discriminate. Defined.

(** C9 (code bug).  The unit labels are meant to be [Bytes], [KB] and [MB],
    but at 1024^3 bytes the index reaches 3 and the text is
    "1 undefined"; below that bound [formatSize_units] shows the intended
    rendering, including "0 Bytes", "1.5 KB" and "3 MB". *)
Theorem formatSize_one_gibibyte :
  formatSize 1073741824 = "1 undefined"%string /\
  formatSize 0 = "0 Bytes"%string /\
  formatSize 1536 = "1.5 KB"%string /\
  formatSize 3145728 = "3 MB"%string.
Proof. vm_compute. repeat split. Qed.

(** ** Further properties of the code *)

Lemma append_cons (c : ascii) (s t : string) :
  (String c s ++ t)%string = String c (s ++ t)%string.
Proof. reflexivity. Qed.

Lemma append_empty (t : string) : (EmptyString ++ t)%string = t.
Proof. reflexivity. Qed.

Lemma ext_tail_with_dot (s t : string) : ext_tail (s ++ String "." t)%string = false.
Proof.
  induction s as [|c s IH]; [reflexivity|].
  rewrite append_cons. cbn [ext_tail]. rewrite IH. apply andb_false_r.
Qed.

Lemma is_extension_with_dot (s t : string) : is_extension (s ++ String "." t)%string = false.
Proof.
  destruct s as [|c s]; [reflexivity|].
  rewrite append_cons. cbn [is_extension]. rewrite <- append_cons.
  apply (ext_tail_with_dot (String c s)).
Qed.

(** The regular expression removes exactly the final [.ext] of a name:
    [a.png] and [a.jpg] both become [a-optimized.webp]. *)
Theorem optimized_name_drops_extension (p ext : string) :
  is_extension ext = true ->
  optimized_name (p ++ String "." ext)%string = (p ++ "-optimized.webp")%string.
Proof.
  intros Hext. unfold optimized_name. f_equal.
  induction p as [|c p IH]; rewrite ?append_empty, ?append_cons; cbn [strip_ext].
  - rewrite Ascii.eqb_refl, Hext. reflexivity.
  - rewrite is_extension_with_dot, andb_false_r. rewrite IH. reflexivity.
Qed.

Lemma optimized_name_drops_extension_witness :
  optimized_name ("holiday.2024" ++ String "." "png")%string = "holiday.2024-optimized.webp"%string.
Proof. apply (optimized_name_drops_extension "holiday.2024" "png"). reflexivity. Defined.

(** A result is never larger than its file, and it has the file's size
    exactly when it is the untouched original. *)
Theorem processImage_never_larger (decode : DataURL -> option Image)
    (toDataURL : Canvas -> float -> DataURL) (file : File) (r : ProcessedImage) :
  processImage decode toDataURL file = Resolved r ->
  originalSize r = file_size file /\ size r <= originalSize r /\
  (size r = originalSize r <->
   r = mkProcessed (file_name file) (readAsDataURL file) (file_size file) (file_size file)).
Proof.
  unfold processImage. destruct (decode (readAsDataURL file)) as [img|]; [|discriminate].
  intros H. injection H as <-.
  unfold choose_result.
  destruct (blob_size (blob (quality_search toDataURL (render img) (file_size file)))
              >=? file_size file) eqn:E.
  - simpl. split; [reflexivity|]. split; [lia|]. tauto.
  - rewrite Z.geb_leb, Z.leb_gt in E. simpl.
    split; [reflexivity|]. split; [lia|]. split; [lia|].
    intros Heq. injection Heq as _ _ Hs. lia.
Qed.

Lemma processImage_never_larger_witness :
  originalSize (mkProcessed "cat-optimized.webp"
     (shrinking_encoder (render (mkImage 2000 1000)) 0.40000000000000013%float) 50 60)
    = file_size (sample_file "cat.png" 60) /\
  size (mkProcessed "cat-optimized.webp"
     (shrinking_encoder (render (mkImage 2000 1000)) 0.40000000000000013%float) 50 60)
    <= originalSize (mkProcessed "cat-optimized.webp"
     (shrinking_encoder (render (mkImage 2000 1000)) 0.40000000000000013%float) 50 60) /\
  (size (mkProcessed "cat-optimized.webp"
     (shrinking_encoder (render (mkImage 2000 1000)) 0.40000000000000013%float) 50 60)
     = originalSize (mkProcessed "cat-optimized.webp"
     (shrinking_encoder (render (mkImage 2000 1000)) 0.40000000000000013%float) 50 60) <->
   mkProcessed "cat-optimized.webp"
     (shrinking_encoder (render (mkImage 2000 1000)) 0.40000000000000013%float) 50 60 =
   mkProcessed (file_name (sample_file "cat.png" 60))
     (readAsDataURL (sample_file "cat.png" 60))
     (file_size (sample_file "cat.png" 60)) (file_size (sample_file "cat.png" 60))).
Proof.
  apply (processImage_never_larger sample_decoder shrinking_encoder (sample_file "cat.png" 60)).
  vm_compute. reflexivity.
Defined.

(** When the first encoding at 0.8 already fits, the search encodes once. *)
Theorem quality_search_single_encode (toDataURL : Canvas -> float -> DataURL)
    (canvas : Canvas) (fileSize : Z) :
  blob_size (fetch_blob (toDataURL canvas 0.8%float)) <= fileSize ->
  encodes (quality_search toDataURL canvas fileSize) = [0.8%float] /\
  quality (quality_search toDataURL canvas fileSize) = 0.8%float /\
  webpUrl (quality_search toDataURL canvas fileSize) = toDataURL canvas 0.8%float.
Proof.
  intros Hfit. unfold quality_search.
  assert (Hg : search_guard fileSize
    (mkSearch 0.8%float (toDataURL canvas 0.8%float)
       (fetch_blob (toDataURL canvas 0.8%float)) [0.8%float]) = false).
  { unfold search_guard. cbn [blob].
    rewrite Z.gtb_ltb. rewrite (proj2 (Z.ltb_ge _ _) Hfit). reflexivity. }
  replace search_fuel with (S 63) by reflexivity.
  cbn [search_loop]. rewrite Hg. split; [|split]; reflexivity.
Qed.

Lemma quality_search_single_encode_witness :
  encodes (quality_search oversized_encoder (mkCanvas 1 1 (mkImage 1 1)) 100) = [0.8%float] /\
  quality (quality_search oversized_encoder (mkCanvas 1 1 (mkImage 1 1)) 100) = 0.8%float /\
  webpUrl (quality_search oversized_encoder (mkCanvas 1 1 (mkImage 1 1)) 100)
    = oversized_encoder (mkCanvas 1 1 (mkImage 1 1)) 0.8%float.
Proof.
  apply (quality_search_single_encode oversized_encoder (mkCanvas 1 1 (mkImage 1 1)) 100).
  vm_compute. discriminate.
Defined.

(** A whole number [k] of bytes, kilobytes or megabytes ([0 < k < 1024])
    is printed as [k] and its unit, with no decimals. *)
Theorem formatSize_whole_units (k i : Z) (u : string) :
  0 < k < 1024 -> 0 <= i -> sizes !! Z.to_nat i = Some u ->
  formatSize (k * 1024 ^ i) = (digits k ++ " " ++ u)%string.
Proof.
  intros Hk Hi Hu.
  assert (Hd : 0 < 1024 ^ i) by (apply Z.pow_pos_nonneg; lia).
  assert (Hd1 : 1024 ^ (i + 1) = 1024 ^ i * 1024) by (rewrite Z.pow_add_r by lia; reflexivity).
  destruct (log1024_index_bounds (k * 1024 ^ i) ltac:(nia)) as (Hj0 & Hlo & Hhi).
  assert (Hj : log1024_index (k * 1024 ^ i) = i).
  { set (j := log1024_index (k * 1024 ^ i)) in *.
    destruct (Z.lt_trichotomy j i) as [Hlt|[Heq|Hgt]]; [|exact Heq|].
    - assert (1024 ^ (j + 1) <= 1024 ^ i) by (apply Z.pow_le_mono_r; lia). nia.
    - assert (1024 ^ (i + 1) <= 1024 ^ j) by (apply Z.pow_le_mono_r; lia). nia. }
  unfold formatSize.
  rewrite (proj2 (Z.eqb_neq (k * 1024 ^ i) 0)) by nia.
  rewrite (proj2 (Z.ltb_ge (k * 1024 ^ i) 0)) by nia.
  rewrite Hj.
  replace ((200 * (k * 1024 ^ i) + 1024 ^ i) / (2 * 1024 ^ i)) with (100 * k).
  2:{ apply Z.div_unique with (1024 ^ i); [lia|ring]. }
  unfold number_text, unit_label.
  rewrite (Z.mul_comm 100 k), Z.div_mul, Z.mod_mul by lia.
  rewrite Hu. reflexivity.
Qed.

Lemma formatSize_whole_units_witness :
  formatSize (3 * 1024 ^ 2) = (digits 3 ++ " " ++ "MB")%string.
Proof. apply (formatSize_whole_units 3 2 "MB"); [lia | lia | reflexivity]. Defined.

Lemma total_zero (f : ProcessedImage -> Z) (rs : list ProcessedImage) (acc : float) :
  acc = 0%float -> Forall (fun r => f r = 0) rs ->
  fold_left (fun acc img => (acc + js_number (f img))%float) rs acc = 0%float.
Proof.
  revert acc. induction rs as [|r rs IH]; intros acc Hacc Hall; simpl; [exact Hacc|].
  inversion Hall as [|? ? Hr Hrs]; subst.
  apply IH; [|exact Hrs]. rewrite Hr. reflexivity.
Qed.

(** With no bytes at all in the batch (in particular an empty batch) the
    savings figure is 0 / 0 and reads "NaN". *)
Theorem calculateTotalSavings_zero_total (rs : list ProcessedImage) :
  Forall (fun r => originalSize r = 0 /\ size r = 0) rs ->
  calculateTotalSavings rs = Some "NaN"%string.
Proof.
  intros Hall. unfold calculateTotalSavings, savings_value, total_original, total_compressed.
  rewrite (total_zero originalSize rs 0%float) by
    (reflexivity || (eapply Forall_impl; [exact Hall|]; intros r [H _]; exact H)).
  rewrite (total_zero size rs 0%float) by
    (reflexivity || (eapply Forall_impl; [exact Hall|]; intros r [_ H]; exact H)).
  vm_compute. reflexivity.
Qed.

Lemma calculateTotalSavings_zero_total_witness :
  calculateTotalSavings [] = Some "NaN"%string.
Proof. apply calculateTotalSavings_zero_total. constructor. Defined.

Section ArchiveFacts.

Variable parent_folders : string -> list string.

Lemma folder_adds_keep (fs : list string) (z : gmap string ZipEntry) (k : string)
    (e : ZipEntry) :
  z !! k = Some e -> fold_left folder_add fs z !! k = Some e.
Proof.
  revert z. induction fs as [|f fs IH]; intros z Hz; simpl; [exact Hz|].
  apply IH. unfold folder_add. destruct (z !! f) eqn:Hf; [exact Hz|].
  rewrite lookup_insert_ne; [exact Hz|]. intros ->. congruence.
Qed.

Lemma folder_adds_file (fs : list string) (z : gmap string ZipEntry) (k : string)
    (d : list Byte.byte) :
  fold_left folder_add fs z !! k = Some (ZipFile d) -> z !! k = Some (ZipFile d).
Proof.
  revert z. induction fs as [|f fs IH]; intros z H; simpl in H; [exact H|].
  apply IH in H. unfold folder_add in H. destruct (z !! f) eqn:Hf; [exact H|].
  destruct (decide (f = k)) as [->|Hne].
  - rewrite lookup_insert_eq in H. discriminate.
  - rewrite lookup_insert_ne in H by exact Hne. exact H.
Qed.

Lemma archive_fold_keeps (images : list ProcessedImage) (z : gmap string ZipEntry)
    (n : string) (e : ZipEntry) :
  z !! n = Some e -> Forall (fun im => name im <> n) images ->
  fold_left (fun z image => zip_file parent_folders z (name image) (url_payload (url image)))
    images z !! n = Some e.
Proof.
  intros Hz Hall. revert z Hz.
  induction Hall as [|im images Him _ IH]; intros z Hz; simpl; [exact Hz|].
  apply IH. unfold zip_file. rewrite lookup_insert_ne by exact Him.
  apply folder_adds_keep. exact Hz.
Qed.

Lemma archive_fold_origin (images : list ProcessedImage) (z : gmap string ZipEntry)
    (n : string) (d : list Byte.byte) :
  fold_left (fun z image => zip_file parent_folders z (name image) (url_payload (url image)))
    images z !! n = Some (ZipFile d) ->
  z !! n = Some (ZipFile d) \/
  exists im, im ∈ images /\ name im = n /\ url_payload (url im) = d.
Proof.
  revert z. induction images as [|a images IH]; intros z H; simpl in H; [left; exact H|].
  apply IH in H as [H|(im & Hin & Hn & Hd)].
  - unfold zip_file in H. destruct (decide (name a = n)) as [<-|Hne].
    + rewrite lookup_insert_eq in H. injection H as <-.
      right. exists a. split; [apply elem_of_cons; left; reflexivity|]. split; reflexivity.
    + rewrite lookup_insert_ne in H by exact Hne.
      left. exact (folder_adds_file _ _ _ _ H).
  - right. exists im. split; [apply elem_of_cons; right; exact Hin|]. split; assumption.
Qed.

(** [downloadAll] writes every image under its name, a later image
    replacing an earlier one of the same name: the entry of a name holds the
    payload of the LAST image with that name. *)
Theorem downloadAll_archive_last_wins (images : list ProcessedImage) (n : string) :
  (exists im, im ∈ images /\ name im = n) ->
  exists pre im post,
    images = pre ++ im :: post /\ name im = n /\
    Forall (fun x => name x <> n) post /\
    downloadAll_archive parent_folders images !! n = Some (ZipFile (url_payload (url im))).
Proof.
  unfold downloadAll_archive.
  induction images as [|a images IH] using rev_ind; intros (im & Hin & Hn).
  - apply list_elem_of_In in Hin. destruct Hin.
  - rewrite fold_left_app. cbn [fold_left].
    destruct (decide (name a = n)) as [Ha|Ha].
    + exists images, a, []. split; [reflexivity|]. split; [exact Ha|].
      split; [constructor|]. unfold zip_file. rewrite <- Ha. apply lookup_insert_eq.
    + apply elem_of_app in Hin as [Hin|Hin].
      2:{ apply list_elem_of_singleton in Hin. subst. contradiction. }
      destruct (IH (ex_intro _ im (conj Hin Hn))) as (pre & im' & post & Heq & Hn' & Hpost & Hlk).
      exists pre, im', (post ++ [a]). split; [rewrite Heq, <- app_assoc; reflexivity|].
      split; [exact Hn'|]. split; [apply Forall_app; split; [exact Hpost|constructor; [exact Ha|constructor]]|].
      unfold zip_file. rewrite lookup_insert_ne by exact Ha.
      apply folder_adds_keep. exact Hlk.
Qed.

(** When the names are distinct, every image's payload is in the archive
    under its own name. *)
Theorem downloadAll_archive_distinct_names (images : list ProcessedImage) :
  NoDup (map name images) ->
  forall im, im ∈ images ->
  downloadAll_archive parent_folders images !! name im = Some (ZipFile (url_payload (url im))).
Proof.
  intros Hnd im Hin.
  apply list_elem_of_split in Hin as (l1 & l2 & ->).
  rewrite map_app in Hnd. cbn [map] in Hnd.
  apply NoDup_app in Hnd as (_ & _ & Hnd). apply NoDup_cons in Hnd as [Hnot _].
  unfold downloadAll_archive. rewrite fold_left_app. cbn [fold_left].
  apply archive_fold_keeps.
  - unfold zip_file. apply lookup_insert_eq.
  - apply Forall_forall. intros x Hx Heq. apply Hnot.
    apply list_elem_of_In. rewrite <- Heq. apply in_map. apply list_elem_of_In. exact Hx.
Qed.

(** Every file entry of the archive is the payload of some image stored
    under that image's name; nothing else is written as a file. *)
Theorem downloadAll_archive_files_from_images (images : list ProcessedImage) (n : string)
    (d : list Byte.byte) :
  downloadAll_archive parent_folders images !! n = Some (ZipFile d) ->
  exists im, im ∈ images /\ name im = n /\ url_payload (url im) = d.
Proof.
  unfold downloadAll_archive. intros H.
  apply archive_fold_origin in H as [H|H]; [|exact H].
  rewrite lookup_empty in H. discriminate.
Qed.

End ArchiveFacts.

Lemma downloadAll_archive_last_wins_witness :
  exists pre im post,
    [mkProcessed "a.webp" (mkDataURL "image/webp" [Byte.x01]) 1 2;
     mkProcessed "a.webp" (mkDataURL "image/webp" [Byte.x02]) 1 2]
      = pre ++ im :: post /\ name im = "a.webp"%string /\
    Forall (fun x => name x <> "a.webp"%string) post /\
    downloadAll_archive (fun _ => [])
      [mkProcessed "a.webp" (mkDataURL "image/webp" [Byte.x01]) 1 2;
       mkProcessed "a.webp" (mkDataURL "image/webp" [Byte.x02]) 1 2] !! "a.webp"%string
      = Some (ZipFile (url_payload (url im))).
Proof.
  apply (downloadAll_archive_last_wins (fun _ => [])).
  exists (mkProcessed "a.webp" (mkDataURL "image/webp" [Byte.x01]) 1 2).
  split; [apply list_elem_of_In; simpl; tauto | reflexivity].
Defined.

Lemma downloadAll_archive_distinct_names_witness :
  downloadAll_archive (fun _ => [])
    [mkProcessed "a.webp" (mkDataURL "image/webp" [Byte.x01]) 1 2;
     mkProcessed "b.webp" (mkDataURL "image/webp" [Byte.x02]) 1 2] !! "b.webp"%string
    = Some (ZipFile [Byte.x02]).
Proof.
  refine (downloadAll_archive_distinct_names (fun _ => [])
    [mkProcessed "a.webp" (mkDataURL "image/webp" [Byte.x01]) 1 2;
     mkProcessed "b.webp" (mkDataURL "image/webp" [Byte.x02]) 1 2] _
    (mkProcessed "b.webp" (mkDataURL "image/webp" [Byte.x02]) 1 2) _).
  - cbn [map name]. apply NoDup_cons. split.
    + rewrite list_elem_of_In. simpl. intros [H|[]]. discriminate.
    + apply NoDup_cons. split; [rewrite list_elem_of_In; simpl; tauto|constructor].
  - apply list_elem_of_In. simpl. tauto.
Defined.

Lemma downloadAll_archive_files_from_images_witness :
  exists im, im ∈ [mkProcessed "a.webp" (mkDataURL "image/webp" [Byte.x01]) 1 2] /\
    name im = "a.webp"%string /\ url_payload (url im) = [Byte.x01].
Proof.
  apply (downloadAll_archive_files_from_images (fun _ => ["photos/"%string])
    [mkProcessed "a.webp" (mkDataURL "image/webp" [Byte.x01]) 1 2] "a.webp"%string).
  vm_compute. reflexivity.
Defined.

Lemma settle_no_promises {A : Type} (order : list nat) (slots : list (option A)) :
  settle order ([] : list (promise A)) slots = slots.
Proof. revert slots. induction order as [|i order IH]; intros slots; [reflexivity|]. apply IH. Qed.

(** A batch with an undecodable file leaves the spinner on for good and
    hides the results panel, including the results of earlier batches. *)
Theorem view_stalled_batch (decode : DataURL -> option Image)
    (toDataURL : Canvas -> float -> DataURL) (order : list nat)
    (files : list File) (s : UIState) (file : File) :
  file ∈ files -> decode (readAsDataURL file) = None ->
  view (onDrop decode toDataURL order files s) = mkView true None.
Proof.
  intros Hin Hd. unfold onDrop.
  apply list_elem_of_lookup in Hin as [i Hi].
  rewrite (promise_all_pending order _ i).
  - unfold view. cbn [isProcessing processedImages]. rewrite andb_false_r. reflexivity.
  - rewrite list_lookup_fmap, Hi. simpl. unfold processImage. rewrite Hd. reflexivity.
Qed.

Lemma view_stalled_batch_witness :
  view (onDrop sample_decoder oversized_encoder [2; 0; 1]%nat three_files
          (mkUI [savings_row 100 50] false)) = mkView true None.
Proof.
  apply (view_stalled_batch sample_decoder oversized_encoder [2; 0; 1]%nat
           three_files (mkUI [savings_row 100 50] false) (sample_file "b.png" 0)).
  - apply list_elem_of_In. simpl. tauto.
  - reflexivity.
Defined.

(** After a non-empty batch whose files all decode, the spinner is off and
    the panel shows one row per dropped file, in drop order, with the count
    and the savings of exactly those results. *)
Theorem view_after_batch (decode : DataURL -> option Image)
    (toDataURL : Canvas -> float -> DataURL) (order : list nat)
    (files : list File) (s : UIState) :
  files <> [] ->
  order ≡ₚ seq 0 (length files) ->
  Forall (fun f => decode (readAsDataURL f) <> None) files ->
  exists rs, map Resolved rs = map (processImage decode toDataURL) files /\
    view (onDrop decode toDataURL order files s) =
      mkView false (Some (mkPanel (Z.of_nat (length files)) (calculateTotalSavings rs)
                            (map row_of rs))).
Proof.
  intros Hne Hperm Hall.
  destruct (processImage_all_resolved decode toDataURL files Hall) as [vs Hvs].
  assert (Hlen : length vs = length files).
  { rewrite <- (length_map (@Resolved ProcessedImage) vs), <- Hvs, length_map. reflexivity. }
  exists vs. split; [symmetry; exact Hvs|].
  unfold onDrop. rewrite Hvs.
  rewrite promise_all_resolved by (rewrite Hperm, Hlen; reflexivity).
  unfold view. cbn [isProcessing processedImages].
  destruct files as [|f files]; [congruence|].
  destruct vs as [|v vs]; [discriminate|].
  rewrite Hlen. reflexivity.
Qed.

Lemma view_after_batch_witness :
  exists rs, map Resolved rs = map (processImage sample_decoder shrinking_encoder)
                                [sample_file "a.png" 60; sample_file "b.png" 200] /\
    view (onDrop sample_decoder shrinking_encoder [1; 0]%nat
            [sample_file "a.png" 60; sample_file "b.png" 200] (mkUI [] false)) =
      mkView false (Some (mkPanel 2 (calculateTotalSavings rs) (map row_of rs))).
Proof.
  apply (view_after_batch sample_decoder shrinking_encoder [1; 0]%nat
           [sample_file "a.png" 60; sample_file "b.png" 200] (mkUI [] false)).
  - discriminate.
  - simpl. apply Permutation_swap.
  - repeat constructor; vm_compute; discriminate.
Defined.

(** A drop with no accepted file (only non-images) resolves at once with
    an empty list: earlier results are cleared and no panel is shown. *)
Theorem onDrop_no_files_clears (decode : DataURL -> option Image)
    (toDataURL : Canvas -> float -> DataURL) (order : list nat) (s : UIState) :
  onDrop decode toDataURL order [] s = mkUI [] false /\
  view (onDrop decode toDataURL order [] s) = mkView false None.
Proof.
  unfold onDrop, promise_all. cbn [map length replicate].
  rewrite settle_no_promises. split; reflexivity.
Qed.
